(** * The homepage listing of the blog: filter, sort, slice

    A shallow embedding of the query that [src/pages/index.astro] runs over
    the [blog] content collection, of the constants of [src/consts.ts] and
    of the site settings of [astro.config.mjs], together with the
    properties of the listing that the specification states.

    Layout:
    - [JSArray]: the value semantics of the three array methods the page
      calls ([Array.prototype.filter], [sort] with a comparator, [slice]);
    - the content model ([BlogData], [CollectionEntry]) and the constants;
    - [blog]: the expression of index.astro, lines 10-13, on array contents;
    - [Heap]: the same expression over a store of array objects, where
      [filter] and [slice] allocate and [sort] reorders its receiver in
      place;
    - the content loader's slug rule, which the repository leaves to the
      framework, modelled from the specification;
    - the theorems. *)

From Stdlib Require Import ZArith.
From stdpp Require Import base list sorting gmap strings.

Local Open Scope Z_scope.

(** ** Array methods on array contents *)

Module JSArray.

Section Methods.
Context {A : Type}.

  (** [arr.filter(p)]: the elements on which the callback is truthy, in
      index order. *)
Definition filter (p : A → bool) (arr : list A) : list A := List.filter p arr.

  (** One insertion step of the sort. [x] stood before every element of
      [sorted] in the receiver, so it stays in front of the first element
      it does not have to follow: the comparator asks for [y] before [x]
      only when [cmp x y > 0]. *)
Fixpoint insert (cmp : A → A → Z) (x : A) (sorted : list A) : list A :=
    match sorted with
    | [] => [x]
    | y :: rest => if cmp x y <=? 0 then x :: y :: rest
                   else y :: insert cmp x rest
    end.

  (** [arr.sort(cmp)]. ECMA-262 (since ES2019) requires the sort to be
      stable and, for a consistent comparator, fixes its result; the
      insertion sort below computes that result. [sort_contract_unique]
      shows that any other conforming algorithm returns the same array. *)
Fixpoint sort (cmp : A → A → Z) (arr : list A) : list A :=
    match arr with
    | [] => []
    | x :: rest => insert cmp x (sort cmp rest)
    end.

  (** An index argument of [slice], made relative to the length: a
      negative index counts from the end, and both ends are clamped. *)
Definition relative_index (len k : Z) : Z :=
    if k <? 0 then Z.max (len + k) 0 else Z.min k len.

  (** [arr.slice(start, end)]. *)
Definition slice (start end_ : Z) (arr : list A) : list A :=
    let len := Z.of_nat (length arr) in
    let k := relative_index len start in
    let final := relative_index len end_ in
    let count := Z.max (final - k) 0 in
    take (Z.to_nat count) (drop (Z.to_nat k) arr).
End Methods.

End JSArray.

(** ** Content model *)

(** The frontmatter of a blog post after the collection schema has been
    applied. [date] is the time value of the [Date] object, what
    [valueOf()] returns: integral milliseconds since the epoch. [draft] is
    optional: [None] is JavaScript's [undefined]. *)
Record BlogData := mkBlogData {
  title : string;
  description : string;
  date : Z;
  draft : option bool
}.

(** An entry as [getCollection] hands it out. *)
Record CollectionEntry := mkEntry {
  id : string;
  slug : string;
  body : string;
  collection : string;
  data : BlogData
}.

Global Instance BlogData_eq_dec : EqDecision BlogData.
Proof. solve_decision. Defined.

Global Instance CollectionEntry_eq_dec : EqDecision CollectionEntry.
Proof. solve_decision. Defined.

(** ** src/consts.ts *)

Record Site := mkSite {
  NAME : string;
  EMAIL : string;
  NUM_POSTS_ON_HOMEPAGE : Z;
  NUM_WORKS_ON_HOMEPAGE : Z;
  NUM_PROJECTS_ON_HOMEPAGE : Z
}.

Definition SITE : Site := {|
  NAME := "Gabriel Melo";
  EMAIL := "gabrielpresb@gmail.com";
  NUM_POSTS_ON_HOMEPAGE := 3;
  NUM_WORKS_ON_HOMEPAGE := 2;
  NUM_PROJECTS_ON_HOMEPAGE := 3
|}.

(** ** astro.config.mjs *)

Record AstroConfig := mkConfig {
  site : string;
  base : string
}.

Definition config : AstroConfig := {|
  site := "https://gabrielmeloc22.github.io";
  base := "blog"
|}.

(** ** src/pages/index.astro *)

(** [ToBoolean] on a value that is a boolean or [undefined]. *)
Definition to_boolean (v : option bool) : bool :=
  match v with
  | Some b => b
  | None => false
  end.

(** The filter callback, [(post) => !post.data.draft]. *)
Definition not_draft (post : CollectionEntry) : bool :=
  negb (to_boolean (draft (data post))).

(** The comparator,
    [(a, b) => b.data.date.valueOf() - a.data.date.valueOf()].
    Both operands are integral time values; the sort looks only at the
    sign of the result, which is the sign of the integer difference. *)
Definition by_date_desc (a b : CollectionEntry) : Z :=
  date (data b) - date (data a).

(** The listing of the homepage, applied to what
    [await getCollection("blog")] evaluates to. *)
Definition blog (posts : list CollectionEntry) : list CollectionEntry :=
  JSArray.slice 0 (NUM_POSTS_ON_HOMEPAGE SITE)
    (JSArray.sort by_date_desc
      (JSArray.filter not_draft posts)).

(** ** The same expression over a store of array objects *)

Module Heap.

  (** Arrays and entries are objects: an array holds references to
      entries, and two arrays can share them. *)
Record heap := mkHeap {
    arrays : gmap positive (list positive);
    objects : gmap positive CollectionEntry
  }.

  (** Computations that read and update the store and can throw. *)
Definition M (A : Type) : Type := heap → option (A * heap).

#[global] Instance M_ret : MRet M := λ A x h, Some (x, h).
#[global] Instance M_bind : MBind M := λ A B f m h,
    match m h with
    | Some (x, h') => f x h'
    | None => None
    end.

  (** The elements of the array object [r]. *)
Definition read (r : positive) : M (list positive) := λ h,
    match arrays h !! r with
    | Some arr => Some (arr, h)
    | None => None
    end.

  (** Overwrite the elements of the array object [r]. *)
Definition write (r : positive) (arr : list positive) : M unit := λ h,
    Some ((), {| arrays := <[r := arr]> (arrays h); objects := objects h |}).

  (** A new array object. *)
Definition alloc (arr : list positive) : M positive := λ h,
    let r := fresh (dom (arrays h)) in
    Some (r, {| arrays := <[r := arr]> (arrays h); objects := objects h |}).

  (** [post.data], for a reference [post] to an entry. *)
Definition get_data (post : positive) : M BlogData := λ h,
    match objects h !! post with
    | Some e => Some (data e, h)
    | None => None
    end.

Section Methods.
    (** Callbacks run against the store, as any JavaScript function does. *)
Fixpoint filter_elements (p : positive → M bool) (arr : list positive)
      : M (list positive) :=
      match arr with
      | [] => mret []
      | x :: rest =>
          keep ← p x;
          kept ← filter_elements p rest;
          mret (if keep : bool then x :: kept else kept)
      end.

Fixpoint insert_element (cmp : positive → positive → M Z) (x : positive)
        (sorted : list positive) : M (list positive) :=
      match sorted with
      | [] => mret [x]
      | y :: rest =>
          v ← cmp x y;
          if v <=? 0 then mret (x :: y :: rest)
          else (rest' ← insert_element cmp x rest; mret (y :: rest'))
      end.

Fixpoint sort_elements (cmp : positive → positive → M Z)
        (arr : list positive) : M (list positive) :=
      match arr with
      | [] => mret []
      | x :: rest =>
          sorted ← sort_elements cmp rest;
          insert_element cmp x sorted
      end.

    (** [filter] builds a new array. *)
Definition Array_filter (r : positive) (p : positive → M bool) : M positive :=
      arr ← read r;
      kept ← filter_elements p arr;
      alloc kept.

    (** [sort] collects the elements of its receiver, sorts them, stores
        them back into the receiver and returns the receiver. *)
Definition Array_sort (r : positive) (cmp : positive → positive → M Z)
      : M positive :=
      arr ← read r;
      sorted ← sort_elements cmp arr;
      write r sorted;;
      mret r.

    (** [slice] builds a new array. *)
Definition Array_slice (r : positive) (start end_ : Z) : M positive :=
      arr ← read r;
      alloc (JSArray.slice start end_ arr).
End Methods.

  (** [(post) => !post.data.draft] *)
Definition not_draft (post : positive) : M bool :=
    d ← get_data post;
    mret (negb (to_boolean (draft d))).

  (** [(a, b) => b.data.date.valueOf() - a.data.date.valueOf()] *)
Definition by_date_desc (a b : positive) : M Z :=
    db ← get_data b;
    da ← get_data a;
    mret (date db - date da).

  (** Lines 10-13 of index.astro, from the reference that
      [await getCollection("blog")] evaluates to. *)
Definition blog (posts : positive) : M positive :=
    visible ← Array_filter posts not_draft;
    ordered ← Array_sort visible by_date_desc;
    Array_slice ordered 0 (NUM_POSTS_ON_HOMEPAGE SITE).

  (** The reference [l] denotes the entry [e] in the store [h]. *)
Definition points_to (h : heap) (l : positive) (e : CollectionEntry) : Prop :=
    objects h !! l = Some e.

End Heap.


(** ** Content loader

    The repository leaves the loading of the sources to the framework;
    the definitions below follow the specification. *)

(** Modelled from the spec: the content source of section 3, an
    (identifier, raw-text, raw-metadata) triple; the code that reads the
    sources is not part of the repository's sources. The raw metadata is
    an untyped key/value record. *)
Record ContentSource := mkSource {
  identifier : string;
  raw_text : string;
  raw_metadata : gmap string string
}.

(** Modelled from the spec: the two-step slug resolution of sections 4.2
    and 9, missing from the sources: an explicit [slug] field of the
    metadata takes precedence over the slug derived from the identifier. *)
Definition resolve_slug (explicit : option string) (derived : string) : string :=
  match explicit with
  | Some s => s
  | None => derived
  end.

(** Modelled from the spec: the path of a detail route (section 4.4),
    [{collectionName}/{slug}]; the detail page is missing from the
    sources. *)
Definition detail_path (collectionName slug_ : string) : string :=
  collectionName +:+ "/" +:+ slug_.

Section Loader.
(** Modelled from the spec: the slug derived from a source identifier
    (section 3: case-normalized, path-separator-stripped). The loader is
    missing from the sources and the specification does not fix the
    normalisation further, so it is a parameter here. *)
Variable slug_of_identifier : string → string.

(** Modelled from the spec: the slug the loader gives the entry of a
    source (section 4.2); the loader is missing from the sources. *)
Definition entry_slug (src : ContentSource) : string :=
  resolve_slug (raw_metadata src !! "slug") (slug_of_identifier (identifier src)).

(** Modelled from the spec: the detail route of the entry of a source
    (section 4.4); the page generator is missing from the sources. *)
Definition source_detail_path (collectionName : string) (src : ContentSource) : string :=
  detail_path collectionName (entry_slug src).
End Loader.

(** ** What a conforming sort may return *)

Section Contract.
Context {A : Type}.
Variable key : A → Z.

(** The elements of a list whose key is [d], in order. *)
Definition with_key (d : Z) (arr : list A) : list A :=
  List.filter (λ a, key a =? d) arr.

(** Descending by [key]. *)
Definition descending (arr : list A) : Prop :=
  StronglySorted (λ a b, key b ≤ key a) arr.

(** The requirements of ECMA-262 on [arr.sort((a, b) => key(b) - key(a))]:
    the result is ordered by the comparator and the sort is stable, that
    is, the elements of each key are the ones of the receiver, in the
    order of the receiver. *)
Definition sort_contract (arr result : list A) : Prop :=
  descending result ∧ ∀ d, with_key d result = with_key d arr.
End Contract.

(** A run of lines 10-13 of index.astro with any conforming sort. *)
Definition listing_run (posts view : list CollectionEntry) : Prop :=
  ∃ ordered,
    sort_contract (λ e, date (data e)) (JSArray.filter not_draft posts) ordered
    ∧ view = JSArray.slice 0 (NUM_POSTS_ON_HOMEPAGE SITE) ordered.

(** The time value of day [d] of the January that starts at [jan1]. *)
Definition january (jan1 d : Z) : Z := jan1 + (d - 1) * 86400000.

(** ** Sample content *)

(** A post with the given slug, date and [draft] field. *)
Definition post (slug_ : string) (d : Z) (dr : option bool) : CollectionEntry := {|
  id := slug_ +:+ "/index.md";
  slug := slug_;
  body := "";
  collection := "blog";
  data := {| title := slug_; description := ""; date := d; draft := dr |}
|}.

(** January 1, 2024, 00:00 UTC. *)
Definition jan1_2024 : Z := 1704067200000.

Definition post1 : CollectionEntry := post "one" (january jan1_2024 1) None.
Definition post2 : CollectionEntry := post "two" (january jan1_2024 2) (Some false).
Definition post3 : CollectionEntry := post "three" (january jan1_2024 3) None.
Definition post4 : CollectionEntry := post "four" (january jan1_2024 4) (Some false).
Definition post5 : CollectionEntry := post "five" (january jan1_2024 5) None.

(** Two posts of the same day, and a draft. *)
Definition post3b : CollectionEntry := post "three-bis" (january jan1_2024 3) None.
Definition draft6 : CollectionEntry := post "six" (january jan1_2024 6) (Some true).

(** The frontmatter of [src/content/blog/react-jsx-common-pitfall/index.md]. *)
Definition react_jsx_common_pitfall : ContentSource := {|
  identifier := "react-jsx-common-pitfall/index.md";
  raw_text := "";
  raw_metadata :=
    <["title" := "JSX in React and a common pitfall"]>
    (<["description" := "A practical example of how abstractions can be problematic for beginners"]>
    (<["date" := "Mar 22 2024"]>
    (<["slug" := "jsx-in-react-and-a-common-pitfall"]> ∅)))
|}.

(** A store with one array, the collection, of four entries. *)
Definition sample_heap : Heap.heap := {|
  Heap.arrays := {[ 1%positive := [10; 11; 12; 13]%positive ]};
  Heap.objects :=
    <[10%positive := post1]> (<[11%positive := draft6]>
    (<[12%positive := post5]> (<[13%positive := post3]> ∅)))
|}.

(** The store that the query leaves when it runs on [sample_heap]: the
    filtered array, sorted in place, and the listing. *)
Definition sample_heap_after : Heap.heap := {|
  Heap.arrays :=
    <[3%positive := [12; 13; 10]%positive]>
    (<[2%positive := [12; 13; 10]%positive]>
    (<[2%positive := [10; 12; 13]%positive]>
       (Heap.arrays sample_heap)));
  Heap.objects := Heap.objects sample_heap
|}.

(** ** The list of latest posts in the page *)

(** The markup the page builds for the listing. [ArrowCard] is a
    component of the site that receives the entry as its [entry]
    property. *)
Inductive Html :=
  | Li (child : Html)
  | ArrowCard (entry : CollectionEntry).

(** [blog.map((post) => (<li><ArrowCard entry={post} /></li>))], lines
    25-31 of index.astro: one item per element, in index order. *)
Definition latest_posts (posts : list CollectionEntry) : list Html :=
  List.map (λ post, Li (ArrowCard post)) (blog posts).

(** * Properties *)

(** ** The array methods *)

Section ArrayFacts.
Context {A : Type}.
Implicit Types (arr : list A) (p : A → bool) (cmp : A → A → Z).

Lemma filter_sublist p arr : JSArray.filter p arr `sublist_of` arr.
Proof.
  induction arr as [|x rest IH]; simpl; [constructor|].
  destruct (p x); by constructor.
Qed.

Lemma elem_of_filter p arr x : x ∈ JSArray.filter p arr ↔ x ∈ arr ∧ p x = true.
Proof.
  unfold JSArray.filter.
  rewrite !list_elem_of_In, filter_In. done.
Qed.

Lemma filter_all p arr :
  Forall (λ x, p x = true) arr → JSArray.filter p arr = arr.
Proof.
  induction 1 as [|x rest Hx _ IH]; simpl; [done|].
  rewrite Hx. by f_equal.
Qed.

Lemma insert_perm cmp x arr : JSArray.insert cmp x arr ≡ₚ x :: arr.
Proof.
  induction arr as [|y rest IH]; simpl; [done|].
  destruct (cmp x y <=? 0); [done|].
  rewrite IH. apply Permutation_swap.
Qed.

Lemma sort_perm cmp arr : JSArray.sort cmp arr ≡ₚ arr.
Proof.
  induction arr as [|x rest IH]; simpl; [done|].
  by rewrite insert_perm, IH.
Qed.

Lemma slice_0 (n : Z) arr :
  0 ≤ n → JSArray.slice 0 n arr = take (Z.to_nat n) arr.
Proof.
  intros Hn. unfold JSArray.slice, JSArray.relative_index.
  destruct (0 <? 0) eqn:H0; [lia|].
  destruct (n <? 0) eqn:Hneg; [lia|]. clear H0 Hneg.
  replace (Z.to_nat (Z.min 0 (Z.of_nat (length arr)))) with 0%nat by lia.
  rewrite drop_0.
  destruct (Z.le_gt_cases n (Z.of_nat (length arr))) as [Hle|Hgt].
  - f_equal. lia.
  - rewrite !take_ge by lia. done.
Qed.

Lemma slice_0_all (n : Z) arr :
  Z.of_nat (length arr) ≤ n → JSArray.slice 0 n arr = arr.
Proof.
  intros Hn. rewrite slice_0 by lia. apply take_ge. lia.
Qed.

End ArrayFacts.

(** ** Sorting by a key, most recent first *)

Section Descending.
Context {A : Type}.
Variable key : A → Z.
Implicit Types (arr : list A).

Let cmp (a b : A) : Z := key b - key a.

Lemma insert_descending x arr :
  descending key arr → descending key (JSArray.insert cmp x arr).
Proof.
  unfold descending.
  induction arr as [|y rest IH]; simpl; intros Hs.
  - repeat constructor.
  - apply StronglySorted_inv in Hs as [Hrest Hy].
    destruct (cmp x y <=? 0) eqn:Hc.
    + apply Z.leb_le in Hc. unfold cmp in Hc.
      constructor; [by constructor|].
      constructor; [lia|].
      eapply Forall_impl; [exact Hy|]. simpl. intros z Hz. lia.
    + apply Z.leb_gt in Hc. unfold cmp in Hc.
      constructor; [by apply IH|].
      rewrite insert_perm. constructor; [lia|done].
Qed.

Lemma sort_descending arr : descending key (JSArray.sort cmp arr).
Proof.
  induction arr as [|x rest IH]; simpl; [constructor|].
  by apply insert_descending.
Qed.

Lemma insert_with_key x arr d :
  with_key key d (JSArray.insert cmp x arr) = with_key key d (x :: arr).
Proof.
  unfold with_key.
  induction arr as [|y rest IH]; simpl; [done|].
  destruct (cmp x y <=? 0) eqn:Hc; [done|].
  apply Z.leb_gt in Hc. unfold cmp in Hc.
  simpl in *. rewrite IH.
  destruct (key x =? d) eqn:Hx, (key y =? d) eqn:Hy; try done.
  apply Z.eqb_eq in Hx, Hy. lia.
Qed.

Lemma sort_with_key arr d :
  with_key key d (JSArray.sort cmp arr) = with_key key d arr.
Proof.
  induction arr as [|x rest IH]; simpl; [done|].
  rewrite insert_with_key. unfold with_key in *. simpl.
  by rewrite IH.
Qed.

Lemma sort_meets_contract arr : sort_contract key arr (JSArray.sort cmp arr).
Proof. split; [apply sort_descending | intros d; apply sort_with_key]. Qed.

Lemma with_key_head x arr : with_key key (key x) (x :: arr) = x :: with_key key (key x) arr.
Proof. unfold with_key. simpl. by rewrite Z.eqb_refl. Qed.

Lemma elem_of_with_key x d arr : x ∈ with_key key d arr ↔ x ∈ arr ∧ key x = d.
Proof.
  unfold with_key. rewrite !list_elem_of_In, filter_In, Z.eqb_eq. done.
Qed.

(** Two descending lists with the same elements of every key, in the
    same order, are the same list. *)
Lemma descending_unique arr1 arr2 :
  descending key arr1 → descending key arr2 →
  (∀ d, with_key key d arr1 = with_key key d arr2) →
  arr1 = arr2.
Proof.
  unfold descending.
  revert arr2. induction arr1 as [|a rest1 IH]; intros arr2 Hs1 Hs2 Hk.
  - destruct arr2 as [|b rest2]; [done|].
    specialize (Hk (key b)). rewrite with_key_head in Hk. done.
  - destruct arr2 as [|b rest2].
    { specialize (Hk (key a)). rewrite with_key_head in Hk. done. }
    apply StronglySorted_inv in Hs1 as [Hs1 Ha].
    apply StronglySorted_inv in Hs2 as [Hs2 Hb].
    rewrite Forall_forall in Ha, Hb.
    assert (key a = key b) as Hab.
    { assert (b ∈ a :: rest1) as Hb1.
      { eapply (elem_of_with_key b (key b)). rewrite Hk.
        apply elem_of_with_key. split; [left|done]. }
      assert (a ∈ b :: rest2) as Ha2.
      { eapply (elem_of_with_key a (key a)). rewrite <- Hk.
        apply elem_of_with_key. split; [left|done]. }
      apply elem_of_cons in Hb1 as [->|Hb1]; [done|].
      apply elem_of_cons in Ha2 as [->|Ha2]; [done|].
      apply Ha in Hb1. apply Hb in Ha2. lia. }
    pose proof (Hk (key a)) as Hhead.
    rewrite with_key_head, Hab, with_key_head in Hhead.
    injection Hhead as -> Hhead. f_equal.
    apply IH; [done..|]. intros d.
    destruct (decide (d = key b)) as [->|Hne]; [exact Hhead|].
    specialize (Hk d). unfold with_key in *. simpl in Hk.
    destruct (key b =? d) eqn:Hd; [apply Z.eqb_eq in Hd; congruence|done].
Qed.

(** Whatever a conforming sort returns is what [JSArray.sort] returns. *)
Lemma sort_contract_unique arr result :
  sort_contract key arr result → result = JSArray.sort cmp arr.
Proof.
  intros [Hs Hk]. apply descending_unique; [done|apply sort_descending|].
  intros d. by rewrite Hk, sort_with_key.
Qed.

(** With pairwise distinct keys, descending is strictly descending. *)
Lemma descending_strict arr :
  descending key arr → NoDup (key <$> arr) →
  StronglySorted (λ a b, key b < key a) arr.
Proof.
  unfold descending. induction 1 as [|x rest Hs IH Hx]; intros Hnd; [constructor|].
  rewrite fmap_cons in Hnd. apply NoDup_cons in Hnd as [Hnotin Hnd].
  constructor; [by apply IH|].
  rewrite Forall_forall in Hx |- *. intros y Hy.
  specialize (Hx y Hy).
  assert (key y ≠ key x); [|lia].
  intros Heq. apply Hnotin. rewrite <- Heq. by apply list_elem_of_fmap_2.
Qed.

Lemma strictly_descending_unique arr1 arr2 :
  StronglySorted (λ a b, key b < key a) arr1 →
  StronglySorted (λ a b, key b < key a) arr2 →
  arr1 ≡ₚ arr2 → arr1 = arr2.
Proof.
  apply StronglySorted_unique_strong.
  intros x1 x2 _ _ H1 H2. lia.
Qed.
End Descending.

(** ** The listing *)

Lemma not_draft_true e : draft (data e) ≠ Some true → not_draft e = true.
Proof. unfold not_draft. destruct (draft (data e)) as [[]|]; simpl; congruence. Qed.

Lemma blog_unfold posts :
  blog posts = take 3 (JSArray.sort by_date_desc (JSArray.filter not_draft posts)).
Proof. unfold blog. by rewrite slice_0. Qed.

Lemma blog_submseteq posts : blog posts ⊆+ posts.
Proof.
  rewrite blog_unfold.
  etrans; [apply submseteq_take|].
  rewrite sort_perm. apply sublist_submseteq, filter_sublist.
Qed.

Lemma blog_is_run posts : listing_run posts (blog posts).
Proof.
  exists (JSArray.sort by_date_desc (JSArray.filter not_draft posts)).
  split; [|done].
  apply (sort_meets_contract (λ e, date (data e))).
Qed.

Lemma filter_split {A} (p : A → bool) (arr u v : list A) (a : A) :
  List.filter p arr = u ++ a :: v →
  ∃ arr1 arr2, arr = arr1 ++ a :: arr2
    ∧ List.filter p arr1 = u ∧ List.filter p arr2 = v.
Proof.
  revert u. induction arr as [|x rest IH]; intros u Hf; simpl in Hf.
  - by destruct u.
  - destruct (p x) eqn:Hx.
    + destruct u as [|y u]; simpl in Hf; injection Hf as Hhd Hf; subst x.
      * exists [], rest. done.
      * destruct (IH u Hf) as (arr1 & arr2 & -> & <- & <-).
        exists (y :: arr1), arr2. simpl. by rewrite Hx.
    + destruct (IH u Hf) as (arr1 & arr2 & -> & <- & <-).
      exists (x :: arr1), arr2. simpl. by rewrite Hx.
Qed.

(** C1. For a blog collection of exactly five entries, none of them a
    draft, dated January 1 to January 5 and loaded in any order, the
    homepage lists the entries of January 5, January 4 and January 3, in
    that order ([NUM_POSTS_ON_HOMEPAGE] is 3). *)
Theorem homepage_lists_latest_three
    (jan1 : Z) (e1 e2 e3 e4 e5 : CollectionEntry) (posts : list CollectionEntry) :
  posts ≡ₚ [e1; e2; e3; e4; e5] →
  date (data e1) = january jan1 1 →
  date (data e2) = january jan1 2 →
  date (data e3) = january jan1 3 →
  date (data e4) = january jan1 4 →
  date (data e5) = january jan1 5 →
  Forall (λ e, draft (data e) ≠ Some true) posts →
  blog posts = [e5; e4; e3].
Proof.
  intros Hperm H1 H2 H3 H4 H5 Hpublic.
  rewrite blog_unfold, filter_all
    by (eapply Forall_impl; [exact Hpublic|]; apply not_draft_true).
  pose (key := λ e, date (data e)).
  assert (JSArray.sort by_date_desc posts ≡ₚ [e5; e4; e3; e2; e1]) as Hsorted.
  { rewrite sort_perm, Hperm.
    change [e1; e2; e3; e4; e5] with (reverse [e5; e4; e3; e2; e1]).
    apply reverse_Permutation. }
  enough (JSArray.sort by_date_desc posts = [e5; e4; e3; e2; e1]) as -> by done.
  assert (StronglySorted (λ a b, key b < key a) [e5; e4; e3; e2; e1]) as Htarget.
  { unfold key, january in *.
    repeat (constructor; [|repeat (constructor; try lia)]). constructor. }
  apply (strictly_descending_unique key); [|done|done].
  apply descending_strict; [apply (sort_descending key)|].
  rewrite Hsorted. unfold key, january in *. simpl.
  rewrite H1, H2, H3, H4, H5.
  repeat (apply NoDup_cons; split; [rewrite ?elem_of_cons, elem_of_nil; lia|]).
  apply NoDup_nil_2.
Qed.

Lemma homepage_lists_latest_three_witness :
  blog [post3; post1; post5; post2; post4] = [post5; post4; post3].
Proof.
  apply (homepage_lists_latest_three jan1_2024 post1 post2 post3 post4 post5).
  - apply (Permutation_cons_app [post1; post2] [post4; post5] post3). simpl.
    apply perm_skip.
    apply (Permutation_cons_app [post2; post4] [] post5). simpl.
    reflexivity.
  - reflexivity.
  - reflexivity.
  - reflexivity.
  - reflexivity.
  - reflexivity.
  - repeat constructor; discriminate.
Defined.

(** C2. The sort of the listing is stable. For every view and every
    date, the entries of that date stand in the sorted view exactly as
    they stand in the view that was sorted, and whenever [a] stands
    before [b] in the view and both have the same date, [a] stands before
    [b] in the sorted view. The view sorted by the page is the filtered
    collection, which keeps the load order; the result is a function of
    the view, so it is the same on every run. *)
Theorem sort_by_date_is_stable (view : list CollectionEntry) :
  (∀ d : Z,
     List.filter (λ e, date (data e) =? d) (JSArray.sort by_date_desc view)
     = List.filter (λ e, date (data e) =? d) view)
  ∧ (∀ before a between b after,
       view = before ++ a :: between ++ b :: after →
       date (data a) = date (data b) →
       ∃ before' between' after',
         JSArray.sort by_date_desc view
         = before' ++ a :: between' ++ b :: after').
Proof.
  assert (∀ d : Z,
     List.filter (λ e, date (data e) =? d) (JSArray.sort by_date_desc view)
     = List.filter (λ e, date (data e) =? d) view) as Hstable.
  { intros d. apply (sort_with_key (λ e, date (data e))). }
  split; [exact Hstable|].
  intros before a between b after -> Hdate.
  specialize (Hstable (date (data a))).
  rewrite !List.filter_app in Hstable. simpl in Hstable.
  rewrite List.filter_app in Hstable. simpl in Hstable.
  rewrite <- Hdate, Z.eqb_refl in Hstable.
  apply filter_split in Hstable as (before' & rest & Hsorted & _ & Hrest).
  apply filter_split in Hrest as (between' & after' & -> & _ & _).
  by exists before', between', after'.
Qed.

Lemma sort_by_date_is_stable_witness :
  date (data post3) = date (data post3b)
  ∧ ∃ before' between' after',
      JSArray.sort by_date_desc ([post1] ++ post3 :: [post5] ++ post3b :: [])
      = before' ++ post3 :: between' ++ post3b :: after'.
Proof.
  split; [reflexivity|].
  apply (proj2 (sort_by_date_is_stable [post1; post3; post5; post3b])
           [post1] post3 [post5] post3b []); reflexivity.
Defined.

(** C3. An entry whose metadata has [draft: true] never appears in the
    listing of the homepage, whatever the collection. *)
Theorem draft_is_never_listed (posts : list CollectionEntry) (e : CollectionEntry) :
  draft (data e) = Some true → e ∉ blog posts.
Proof.
  intros Hdraft Hin.
  rewrite blog_unfold in Hin.
  apply elem_of_take in Hin as (i & Hin & _).
  apply list_elem_of_lookup_2 in Hin.
  rewrite sort_perm in Hin.
  apply elem_of_filter in Hin as [_ Hkeep].
  unfold not_draft in Hkeep. by rewrite Hdraft in Hkeep.
Qed.

Lemma draft_is_never_listed_witness :
  draft6 ∉ blog [post1; draft6; post2].
Proof. apply draft_is_never_listed. reflexivity. Defined.

(** C4. The window step [slice(0, n)]: when [n] is greater than the
    length of the view it returns the whole view, and when [n] is between
    0 and the length it returns the first [n] entries, that is, the
    prefix of the view of length [n]. It never fails. *)
Theorem slice_takes_first_n {A : Type} (view : list A) (n : Z) :
  (Z.of_nat (length view) < n → JSArray.slice 0 n view = view)
  ∧ (0 ≤ n ≤ Z.of_nat (length view) →
     ∃ rest, view = JSArray.slice 0 n view ++ rest
             ∧ Z.of_nat (length (JSArray.slice 0 n view)) = n).
Proof.
  split.
  - intros Hn. apply slice_0_all. lia.
  - intros [H0 Hn]. rewrite slice_0 by done.
    exists (drop (Z.to_nat n) view). split.
    + by rewrite take_drop.
    + rewrite length_take. lia.
Qed.

Lemma slice_takes_first_n_witness :
  JSArray.slice 0 7 [post1; post2] = [post1; post2]
  ∧ ∃ rest, [post1; post2] = JSArray.slice 0 1 [post1; post2] ++ rest
            ∧ Z.of_nat (length (JSArray.slice 0 1 [post1; post2])) = 1.
Proof.
  split.
  - apply (proj1 (slice_takes_first_n [post1; post2] 7)). simpl. lia.
  - apply (proj2 (slice_takes_first_n [post1; post2] 1)). simpl. lia.
Defined.

(** C8. The listing is deterministic. Take any two runs of the page on
    the same collection, each with a sort that meets the requirements of
    the language (ordered by the comparator, stable): both produce the
    same view, entry for entry and in the same order, and it is the view
    that [blog] computes. *)
Theorem listing_is_deterministic (posts view1 view2 : list CollectionEntry) :
  listing_run posts view1 → listing_run posts view2 →
  view1 = view2 ∧ view1 = blog posts.
Proof.
  intros (ordered1 & Hc1 & ->) (ordered2 & Hc2 & ->).
  apply sort_contract_unique in Hc1, Hc2.
  by rewrite Hc1, Hc2.
Qed.

Lemma listing_is_deterministic_witness :
  blog [post1; post3; post5; post3b] = blog [post1; post3; post5; post3b]
  ∧ blog [post1; post3; post5; post3b] = [post5; post3; post3b].
Proof.
  apply (listing_is_deterministic [post1; post3; post5; post3b]
           (blog [post1; post3; post5; post3b])
           (blog [post1; post3; post5; post3b]));
    apply blog_is_run.
Defined.

(** C9. The [draft] field is optional and counts as false when missing:
    an entry of the collection without a [draft] field passes the filter,
    is part of the sorted view, and is listed whenever the visible
    entries do not outnumber [NUM_POSTS_ON_HOMEPAGE]. *)
Theorem missing_draft_is_not_draft (posts : list CollectionEntry) (e : CollectionEntry) :
  draft (data e) = None → e ∈ posts →
  not_draft e = true
  ∧ e ∈ JSArray.sort by_date_desc (JSArray.filter not_draft posts)
  ∧ (Z.of_nat (length (JSArray.filter not_draft posts)) ≤ NUM_POSTS_ON_HOMEPAGE SITE →
     e ∈ blog posts).
Proof.
  intros Hdraft Hin.
  assert (not_draft e = true) as Hkeep by (unfold not_draft; by rewrite Hdraft).
  assert (e ∈ JSArray.sort by_date_desc (JSArray.filter not_draft posts)) as Hsorted.
  { rewrite sort_perm. by apply elem_of_filter. }
  repeat split; [done..|].
  intros Hfew. unfold blog. rewrite slice_0_all; [done|].
  by rewrite sort_perm.
Qed.

Lemma missing_draft_is_not_draft_witness :
  not_draft post1 = true
  ∧ post1 ∈ JSArray.sort by_date_desc (JSArray.filter not_draft [draft6; post1; post2])
  ∧ (Z.of_nat (length (JSArray.filter not_draft [draft6; post1; post2]))
       ≤ NUM_POSTS_ON_HOMEPAGE SITE →
     post1 ∈ blog [draft6; post1; post2]).
Proof.
  apply missing_draft_is_not_draft; [reflexivity|].
  apply list_elem_of_further, list_elem_of_here.
Defined.

(** C10. The listing is a selection from the collection: it is contained
    in the collection as a multiset (no entry is listed more often than
    the collection holds it), so every listed entry is an entry of the
    collection, a collection of distinct entries gives a listing without
    repetition, and at most [NUM_POSTS_ON_HOMEPAGE] = 3 entries are
    listed. *)
Theorem listing_is_selection (posts : list CollectionEntry) :
  blog posts ⊆+ posts
  ∧ (∀ e, e ∈ blog posts → e ∈ posts)
  ∧ (NoDup posts → NoDup (blog posts))
  ∧ Z.of_nat (length (blog posts)) ≤ 3.
Proof.
  pose proof (blog_submseteq posts) as Hsub.
  repeat split; [done| | |].
  - intros e He. by eapply elem_of_submseteq.
  - intros Hnd. apply submseteq_Permutation in Hsub as [rest Hrest].
    rewrite Hrest in Hnd. by apply NoDup_app in Hnd as [? _].
  - rewrite blog_unfold, length_take. lia.
Qed.

Lemma listing_is_selection_witness :
  NoDup (blog [post1; post3; post5; post3b; draft6]).
Proof.
  apply (listing_is_selection [post1; post3; post5; post3b; draft6]).
  repeat (apply NoDup_cons; split;
          [rewrite ?elem_of_cons, elem_of_nil; vm_compute; intuition discriminate|]).
  apply NoDup_nil_2.
Defined.

(** ** The listing over the store *)

Section HeapFacts.
Implicit Types (h : Heap.heap) (ls : list positive) (es : list CollectionEntry).

Lemma run_bind {A B} (m : Heap.M A) (f : A → Heap.M B) h x h' :
  m h = Some (x, h') → (m ≫= f) h = f x h'.
Proof. intros Hm. unfold mbind, Heap.M_bind. by rewrite Hm. Qed.

Lemma get_data_points_to h l e :
  Heap.points_to h l e → Heap.get_data l h = Some (data e, h).
Proof. unfold Heap.points_to, Heap.get_data. by intros ->. Qed.

Lemma not_draft_points_to h l e :
  Heap.points_to h l e → Heap.not_draft l h = Some (not_draft e, h).
Proof.
  intros Hl. unfold Heap.not_draft.
  by rewrite (run_bind _ _ _ _ _ (get_data_points_to _ _ _ Hl)).
Qed.

Lemma by_date_desc_points_to h a b ea eb :
  Heap.points_to h a ea → Heap.points_to h b eb →
  Heap.by_date_desc a b h = Some (by_date_desc ea eb, h).
Proof.
  intros Ha Hb. unfold Heap.by_date_desc.
  rewrite (run_bind _ _ _ _ _ (get_data_points_to _ _ _ Hb)).
  by rewrite (run_bind _ _ _ _ _ (get_data_points_to _ _ _ Ha)).
Qed.

(** The callbacks only read, so filtering the references leaves the
    store as it was and selects the references of the filtered entries. *)
Lemma filter_elements_points_to h ls es :
  Forall2 (Heap.points_to h) ls es →
  ∃ ls', Heap.filter_elements Heap.not_draft ls h = Some (ls', h)
         ∧ Forall2 (Heap.points_to h) ls' (JSArray.filter not_draft es).
Proof.
  induction 1 as [|l e ls es Hl _ (ls' & Hrun & Hrel)]; simpl.
  - by exists [].
  - rewrite (run_bind _ _ _ _ _ (not_draft_points_to _ _ _ Hl)).
    rewrite (run_bind _ _ _ _ _ Hrun).
    destruct (not_draft e); eexists; split; try done.
    by constructor.
Qed.

Lemma insert_element_points_to h l e ls es :
  Heap.points_to h l e → Forall2 (Heap.points_to h) ls es →
  ∃ ls', Heap.insert_element Heap.by_date_desc l ls h = Some (ls', h)
         ∧ Forall2 (Heap.points_to h) ls' (JSArray.insert by_date_desc e es).
Proof.
  intros Hl. induction 1 as [|l0 e0 ls es Hl0 Hrest (ls' & Hrun & Hrel)]; simpl.
  - exists [l]. split; [done|]. by repeat constructor.
  - rewrite (run_bind _ _ _ _ _ (by_date_desc_points_to _ _ _ _ _ Hl Hl0)).
    destruct (by_date_desc e e0 <=? 0).
    + eexists. split; [done|]. by repeat constructor.
    + rewrite (run_bind _ _ _ _ _ Hrun).
      eexists. split; [done|]. by constructor.
Qed.

Lemma sort_elements_points_to h ls es :
  Forall2 (Heap.points_to h) ls es →
  ∃ ls', Heap.sort_elements Heap.by_date_desc ls h = Some (ls', h)
         ∧ Forall2 (Heap.points_to h) ls' (JSArray.sort by_date_desc es).
Proof.
  induction 1 as [|l e ls es Hl _ (ls' & Hrun & Hrel)]; simpl.
  - by exists [].
  - rewrite (run_bind _ _ _ _ _ Hrun).
    by apply insert_element_points_to.
Qed.

Lemma slice_points_to h (start end_ : Z) ls es :
  Forall2 (Heap.points_to h) ls es →
  Forall2 (Heap.points_to h) (JSArray.slice start end_ ls) (JSArray.slice start end_ es).
Proof.
  intros Hrel. unfold JSArray.slice.
  rewrite (Forall2_length _ _ _ Hrel).
  by apply Forall2_take, Forall2_drop.
Qed.
End HeapFacts.

(** C5. The query does not change the loaded collection. From a store
    in which [posts] is the array of the collection, the three steps run
    to completion: [filter] returns a new array; [sort] reorders that
    array, not the collection, and returns it; [slice] returns a new
    array again. Afterwards every array that existed before, the
    collection among them, has the elements it had, in the same order;
    no entry object has changed; and the returned array holds the
    listing that [blog] computes from the entries of the collection. *)
Theorem query_leaves_collection_unchanged
    (h : Heap.heap) (posts : positive) (ls : list positive)
    (es : list CollectionEntry) :
  Heap.arrays h !! posts = Some ls →
  Forall2 (Heap.points_to h) ls es →
  ∃ visible h1 h2 listing h3,
    Heap.Array_filter posts Heap.not_draft h = Some (visible, h1)
    ∧ Heap.Array_sort visible Heap.by_date_desc h1 = Some (visible, h2)
    ∧ Heap.Array_slice visible 0 (NUM_POSTS_ON_HOMEPAGE SITE) h2 = Some (listing, h3)
    ∧ Heap.blog posts h = Some (listing, h3)
    ∧ (visible ∉ dom (Heap.arrays h))
    ∧ (listing ∉ dom (Heap.arrays h2))
    ∧ visible ≠ posts ∧ listing ≠ posts ∧ listing ≠ visible
    ∧ (∀ r, r ∈ dom (Heap.arrays h) → Heap.arrays h3 !! r = Heap.arrays h !! r)
    ∧ Heap.arrays h3 !! posts = Some ls
    ∧ Heap.objects h3 = Heap.objects h
    ∧ ∃ ls', Heap.arrays h3 !! listing = Some ls'
             ∧ Forall2 (Heap.points_to h3) ls' (blog es).
Proof.
  intros Hposts Hrel.
  destruct (filter_elements_points_to h ls es Hrel) as (vs & Hfilter & Hvs).
  set (visible := fresh (dom (Heap.arrays h))).
  set (h1 := {| Heap.arrays := <[visible := vs]> (Heap.arrays h);
                Heap.objects := Heap.objects h |}).
  destruct (sort_elements_points_to h1 vs _ Hvs) as (ss & Hsort & Hss).
  set (h2 := {| Heap.arrays := <[visible := ss]> (Heap.arrays h1);
                Heap.objects := Heap.objects h1 |}).
  set (listing := fresh (dom (Heap.arrays h2))).
  set (h3 := {| Heap.arrays :=
                  <[listing := JSArray.slice 0 (NUM_POSTS_ON_HOMEPAGE SITE) ss]>
                    (Heap.arrays h2);
                Heap.objects := Heap.objects h2 |}).
  assert (visible ∉ dom (Heap.arrays h)) as Hvisible by apply is_fresh.
  assert (listing ∉ dom (Heap.arrays h2)) as Hlisting by apply is_fresh.
  assert (posts ∈ dom (Heap.arrays h)) as Hdom by (apply elem_of_dom; eauto).
  assert (Heap.Array_filter posts Heap.not_draft h = Some (visible, h1)) as Hstep1.
  { unfold Heap.Array_filter.
    rewrite (run_bind _ _ h ls h) by (unfold Heap.read; by rewrite Hposts).
    by rewrite (run_bind _ _ _ _ _ Hfilter). }
  assert (Heap.Array_sort visible Heap.by_date_desc h1 = Some (visible, h2)) as Hstep2.
  { unfold Heap.Array_sort.
    rewrite (run_bind _ _ h1 vs h1)
      by (unfold Heap.read; simpl; by rewrite lookup_insert_eq).
    by rewrite (run_bind _ _ _ _ _ Hsort). }
  assert (Heap.Array_slice visible 0 (NUM_POSTS_ON_HOMEPAGE SITE) h2
          = Some (listing, h3)) as Hstep3.
  { unfold Heap.Array_slice.
    by rewrite (run_bind _ _ h2 ss h2)
      by (unfold Heap.read; simpl; by rewrite lookup_insert_eq). }
  assert (∀ r, r ∈ dom (Heap.arrays h) →
               Heap.arrays h3 !! r = Heap.arrays h !! r) as Hframe.
  { intros r Hr. simpl.
    assert (r ≠ visible) by (intros ->; done).
    assert (r ≠ listing).
    { intros ->. apply Hlisting. simpl. rewrite !dom_insert_L. set_solver. }
    by rewrite !lookup_insert_ne. }
  exists visible, h1, h2, listing, h3.
  split_and!; try done.
  - unfold Heap.blog.
    rewrite (run_bind _ _ _ _ _ Hstep1).
    by rewrite (run_bind _ _ _ _ _ Hstep2).
  - by intros ->.
  - intros Heq. apply Hlisting. rewrite Heq. simpl.
    rewrite !dom_insert_L. set_solver.
  - intros Heq. apply Hlisting. rewrite Heq. simpl.
    rewrite !dom_insert_L. set_solver.
  - by rewrite Hframe.
  - exists (JSArray.slice 0 (NUM_POSTS_ON_HOMEPAGE SITE) ss). split.
    + simpl. by rewrite lookup_insert_eq.
    + by apply (slice_points_to h1).
Qed.

Lemma query_leaves_collection_unchanged_witness :
  ∃ visible h1 h2 listing h3,
    Heap.Array_filter 1%positive Heap.not_draft sample_heap = Some (visible, h1)
    ∧ Heap.Array_sort visible Heap.by_date_desc h1 = Some (visible, h2)
    ∧ Heap.Array_slice visible 0 (NUM_POSTS_ON_HOMEPAGE SITE) h2 = Some (listing, h3)
    ∧ Heap.blog 1%positive sample_heap = Some (listing, h3)
    ∧ (visible ∉ dom (Heap.arrays sample_heap))
    ∧ (listing ∉ dom (Heap.arrays h2))
    ∧ visible ≠ 1%positive ∧ listing ≠ 1%positive ∧ listing ≠ visible
    ∧ (∀ r, r ∈ dom (Heap.arrays sample_heap) →
            Heap.arrays h3 !! r = Heap.arrays sample_heap !! r)
    ∧ Heap.arrays h3 !! 1%positive = Some [10; 11; 12; 13]%positive
    ∧ Heap.objects h3 = Heap.objects sample_heap
    ∧ ∃ ls', Heap.arrays h3 !! listing = Some ls'
             ∧ Forall2 (Heap.points_to h3) ls' (blog [post1; draft6; post5; post3]).
Proof.
  apply (query_leaves_collection_unchanged sample_heap 1%positive
           [10; 11; 12; 13]%positive [post1; draft6; post5; post3]).
  - reflexivity.
  - repeat constructor.
Defined.

(** ** Slugs *)

(** C6. An explicit [slug] field in the metadata of a source is the slug
    of its entry, and so the last segment of its detail route, whatever
    slug the identifier of the source would give. *)
Theorem explicit_slug_takes_precedence
    (slug_of_identifier : string → string) (collectionName : string)
    (src : ContentSource) (s : string) :
  raw_metadata src !! "slug" = Some s →
  entry_slug slug_of_identifier src = s
  ∧ source_detail_path slug_of_identifier collectionName src
    = collectionName +:+ "/" +:+ s.
Proof.
  intros Hslug. unfold source_detail_path, detail_path, entry_slug.
  by rewrite Hslug.
Qed.

Lemma explicit_slug_takes_precedence_witness :
  entry_slug (λ _, "react-jsx-common-pitfall") react_jsx_common_pitfall
  = "jsx-in-react-and-a-common-pitfall"
  ∧ source_detail_path (λ _, "react-jsx-common-pitfall") "blog"
      react_jsx_common_pitfall
    = "blog" +:+ "/" +:+ "jsx-in-react-and-a-common-pitfall".
Proof.
  apply (explicit_slug_takes_precedence (λ _, "react-jsx-common-pitfall")
           "blog" react_jsx_common_pitfall "jsx-in-react-and-a-common-pitfall").
  reflexivity.
Defined.

(** * Further properties of the listing *)

Section MoreArrayFacts.
Context {A : Type}.
Variable key : A → Z.
Implicit Types (arr : list A) (p q : A → bool).

Lemma filter_perm p arr1 arr2 :
  arr1 ≡ₚ arr2 → JSArray.filter p arr1 ≡ₚ JSArray.filter p arr2.
Proof.
  induction 1 as [|x l1 l2 _ IH|x y l|l1 l2 l3 _ IH1 _ IH2]; simpl.
  - done.
  - destruct (p x); by rewrite IH.
  - destruct (p x), (p y); try done. apply Permutation_swap.
  - by etrans.
Qed.

Lemma filter_swap p q arr :
  List.filter q (List.filter p arr) = List.filter p (List.filter q arr).
Proof.
  induction arr as [|x rest IH]; simpl; [done|].
  destruct (p x) eqn:Hp, (q x) eqn:Hq; simpl; rewrite ?Hp, ?Hq, IH; done.
Qed.

Lemma descending_filter p arr :
  descending key arr → descending key (JSArray.filter p arr).
Proof.
  unfold descending.
  induction 1 as [|x rest _ IH Hx]; simpl; [constructor|].
  destruct (p x); [|done].
  constructor; [done|].
  rewrite Forall_forall in Hx |- *.
  intros y [Hy _]%elem_of_filter. by apply Hx.
Qed.

Lemma descending_take (n : nat) arr :
  descending key arr → descending key (take n arr).
Proof.
  unfold descending. intros Hs.
  rewrite <- (take_drop n arr) in Hs.
  by apply StronglySorted_app_1_l in Hs.
Qed.

Lemma descending_is_sorted arr :
  descending key arr → JSArray.sort (λ a b, key b - key a) arr = arr.
Proof.
  intros Hs. symmetry. by apply (sort_contract_unique key).
Qed.
End MoreArrayFacts.

Lemma not_draft_false e : not_draft e = false ↔ draft (data e) = Some true.
Proof. unfold not_draft. destruct (draft (data e)) as [[]|]; simpl; naive_solver. Qed.

Lemma blog_descending posts : descending (λ e, date (data e)) (blog posts).
Proof.
  rewrite blog_unfold. apply descending_take.
  apply (sort_descending (λ e, date (data e))).
Qed.

Lemma listing_length_aux posts :
  length (blog posts) = (3 `min` length (JSArray.filter not_draft posts))%nat.
Proof.
  rewrite blog_unfold, length_take. by rewrite sort_perm.
Qed.

(** X1. Sorting a view with the comparator of the page rearranges it,
    losing and repeating no entry, and puts it in order of date, most
    recent first. *)
Theorem sort_by_date_orders_view (view : list CollectionEntry) :
  JSArray.sort by_date_desc view ≡ₚ view
  ∧ descending (λ e, date (data e)) (JSArray.sort by_date_desc view).
Proof.
  split; [apply sort_perm|].
  apply (sort_descending (λ e, date (data e))).
Qed.

(** X2. The listing is in order of date, most recent first: of two
    listed entries, the one at the smaller index is at least as
    recent. *)
Theorem listing_most_recent_first (posts : list CollectionEntry)
    (i j : nat) (ei ej : CollectionEntry) :
  blog posts !! i = Some ei → blog posts !! j = Some ej → (i < j)%nat →
  date (data ej) ≤ date (data ei).
Proof.
  intros Hi Hj Hlt.
  pose proof (blog_descending posts) as Hs. unfold descending in Hs.
  rewrite <- (take_drop (S i) (blog posts)) in Hs.
  apply (StronglySorted_app_1_elem_of _ _ _ ei ej) in Hs; [done| |].
  - apply list_elem_of_lookup. exists i.
    rewrite lookup_take_lt by lia. done.
  - apply list_elem_of_lookup. exists (j - S i)%nat.
    rewrite lookup_drop. by replace (S i + (j - S i))%nat with j by lia.
Qed.

Lemma listing_most_recent_first_witness :
  date (data post3) ≤ date (data post5).
Proof.
  apply (listing_most_recent_first [post1; post3; post5; post3b] 0 1);
    [reflexivity|reflexivity|lia].
Defined.


(** X4. The listing is empty exactly when every entry of the collection
    is a draft. *)
Theorem listing_empty_iff (posts : list CollectionEntry) :
  blog posts = [] ↔ Forall (λ e, draft (data e) = Some true) posts.
Proof.
  split.
  - intros Hempty.
    pose proof (listing_length_aux posts) as Hlen.
    rewrite Hempty in Hlen.
    assert (JSArray.filter not_draft posts = []) as Hnone
      by (destruct (JSArray.filter not_draft posts); [done|discriminate]).
    apply Forall_forall. intros e He.
    apply not_draft_false. destruct (not_draft e) eqn:Hkeep; [|done].
    assert (e ∈ JSArray.filter not_draft posts) as Hin by by apply elem_of_filter.
    rewrite Hnone in Hin. by apply elem_of_nil in Hin.
  - intros Hall. unfold blog.
    replace (JSArray.filter not_draft posts) with (@nil CollectionEntry); [done|].
    symmetry. induction Hall as [|e rest He _ IH]; simpl; [done|].
    apply not_draft_false in He. by rewrite He.
Qed.

(** X5. The listing holds the most recent entries: an entry of the
    collection that is not a draft and is not listed is no more recent
    than any listed entry. *)
Theorem listing_holds_most_recent
    (posts : list CollectionEntry) (e listed : CollectionEntry) :
  e ∈ posts → draft (data e) ≠ Some true →
  e ∉ blog posts → listed ∈ blog posts →
  date (data e) ≤ date (data listed).
Proof.
  intros He Hpublic Hout Hin.
  rewrite blog_unfold in Hout, Hin.
  set (ordered := JSArray.sort by_date_desc (JSArray.filter not_draft posts)) in *.
  assert (e ∈ ordered) as Hord.
  { unfold ordered. rewrite sort_perm.
    apply elem_of_filter. split; [done|by apply not_draft_true]. }
  rewrite <- (take_drop 3 ordered) in Hord.
  apply elem_of_app in Hord as [Hord|Hord]; [done|].
  assert (StronglySorted (λ a b, date (data b) ≤ date (data a)) ordered) as Hs
    by apply (sort_descending (λ e, date (data e))).
  rewrite <- (take_drop 3 ordered) in Hs.
  by apply (StronglySorted_app_1_elem_of _ _ _ listed e) in Hs.
Qed.

Lemma listing_holds_most_recent_witness :
  date (data post1) ≤ date (data post3b).
Proof.
  apply (listing_holds_most_recent [post1; post3; post5; post3b] post1 post3b).
  - apply list_elem_of_here.
  - discriminate.
  - assert (blog [post1; post3; post5; post3b] = [post5; post3; post3b]) as ->
      by reflexivity.
    rewrite !elem_of_cons, elem_of_nil. vm_compute. intuition discriminate.
  - assert (blog [post1; post3; post5; post3b] = [post5; post3; post3b]) as ->
      by reflexivity.
    do 2 apply list_elem_of_further. apply list_elem_of_here.
Defined.

(** X6. A draft does not affect the listing: with or without a draft
    entry at any place of the collection, the listing is the same. *)
Theorem draft_does_not_affect_listing
    (before after : list CollectionEntry) (d : CollectionEntry) :
  draft (data d) = Some true →
  blog (before ++ d :: after) = blog (before ++ after).
Proof.
  intros Hdraft. apply not_draft_false in Hdraft.
  unfold blog, JSArray.filter. rewrite !List.filter_app. simpl.
  by rewrite Hdraft.
Qed.

Lemma draft_does_not_affect_listing_witness :
  blog ([post1; post3] ++ draft6 :: [post5]) = blog ([post1; post3] ++ [post5]).
Proof. apply draft_does_not_affect_listing. reflexivity. Defined.

(** X7. The query applied to its own result changes nothing: a listing
    has no draft, is already in order and is short enough. *)
Theorem listing_is_fixed_point (posts : list CollectionEntry) :
  blog (blog posts) = blog posts.
Proof.
  unfold blog at 1.
  rewrite filter_all.
  - rewrite (descending_is_sorted (λ e, date (data e))) by apply blog_descending.
    apply slice_0_all. rewrite listing_length_aux.
    change (NUM_POSTS_ON_HOMEPAGE SITE) with 3. lia.
  - apply Forall_forall. intros e He.
    rewrite blog_unfold in He.
    apply elem_of_take in He as (i & He & _).
    apply list_elem_of_lookup_2 in He.
    rewrite sort_perm in He. by apply elem_of_filter in He as [_ ?].
Qed.

(** X8. Filtering by a test on the entry alone and sorting commute: for
    a callback that, like the one of the page, looks only at the entry it
    is given (not at the index or the array), sorting the entries that
    pass gives the same view as sorting all entries and then dropping
    those that fail. The listing is therefore also the first three
    entries, not drafts, of the sorted collection. *)
Theorem filter_and_sort_commute
    (p : CollectionEntry → bool) (posts : list CollectionEntry) :
  JSArray.sort by_date_desc (JSArray.filter p posts)
  = JSArray.filter p (JSArray.sort by_date_desc posts)
  ∧ blog posts
    = JSArray.slice 0 (NUM_POSTS_ON_HOMEPAGE SITE)
        (JSArray.filter not_draft (JSArray.sort by_date_desc posts)).
Proof.
  assert (∀ q : CollectionEntry → bool,
    JSArray.sort by_date_desc (JSArray.filter q posts)
    = JSArray.filter q (JSArray.sort by_date_desc posts)) as Hcomm.
  { intros q. symmetry.
    apply (sort_contract_unique (λ e, date (data e))). split.
    - apply descending_filter. apply (sort_descending (λ e, date (data e))).
    - intros d. unfold with_key, JSArray.filter.
      rewrite filter_swap.
      pose proof (sort_with_key (λ e, date (data e)) posts d) as Hk.
      unfold with_key in Hk. fold by_date_desc in Hk. rewrite Hk.
      apply filter_swap. }
  split; [apply Hcomm|].
  unfold blog. by rewrite Hcomm.
Qed.

(** X9. When the entries that are not drafts have pairwise different
    dates, the listing does not depend on the order in which the
    collection was loaded. *)
Theorem listing_independent_of_load_order (posts1 posts2 : list CollectionEntry) :
  posts1 ≡ₚ posts2 →
  NoDup ((λ e, date (data e)) <$> JSArray.filter not_draft posts1) →
  blog posts1 = blog posts2.
Proof.
  intros Hperm Hdates.
  pose (key := λ e, date (data e)).
  assert (JSArray.filter not_draft posts1 ≡ₚ JSArray.filter not_draft posts2)
    as Hvisible by by apply filter_perm.
  unfold blog. f_equal.
  apply (strictly_descending_unique key).
  - apply descending_strict; [apply (sort_descending key)|].
    fold by_date_desc. by rewrite sort_perm.
  - apply descending_strict; [apply (sort_descending key)|].
    fold by_date_desc. by rewrite sort_perm, <- Hvisible.
  - by rewrite !sort_perm.
Qed.

Lemma listing_independent_of_load_order_witness :
  blog [post1; draft6; post5; post3] = blog [post3; post1; post5; draft6].
Proof.
  apply listing_independent_of_load_order.
  - apply (Permutation_cons_app [post3] [post5; draft6] post1). simpl.
    apply (Permutation_cons_app [post3; post5] [] draft6). simpl.
    apply Permutation_swap.
  - vm_compute.
    repeat (apply NoDup_cons; split;
            [rewrite ?elem_of_cons, elem_of_nil; intuition discriminate|]).
    apply NoDup_nil_2.
Defined.

(** ** What a run of the query over the store implies *)

Section HeapInversion.
Implicit Types (h : Heap.heap) (ls : list positive).

Lemma run_bind_inv {A B} (m : Heap.M A) (f : A → Heap.M B) h y h'' :
  (m ≫= f) h = Some (y, h'') →
  ∃ x h', m h = Some (x, h') ∧ f x h' = Some (y, h'').
Proof.
  unfold mbind, Heap.M_bind. destruct (m h) as [[x h']|]; [eauto|done].
Qed.

Lemma run_ret_inv {A} (x y : A) h h' :
  (mret x : Heap.M A) h = Some (y, h') → y = x ∧ h' = h.
Proof. unfold mret, Heap.M_ret. by intros [= -> ->]. Qed.

Lemma get_data_inv l h d h' :
  Heap.get_data l h = Some (d, h') →
  h' = h ∧ ∃ e, Heap.points_to h l e ∧ d = data e.
Proof.
  unfold Heap.get_data, Heap.points_to.
  destruct (Heap.objects h !! l) as [e|]; [|done].
  intros [= <- <-]. eauto.
Qed.

Lemma not_draft_inv l h keep h' :
  Heap.not_draft l h = Some (keep, h') →
  h' = h ∧ ∃ e, Heap.points_to h l e ∧ keep = not_draft e.
Proof.
  unfold Heap.not_draft.
  intros (d & h0 & (-> & e & He & ->)%get_data_inv & Hret)%run_bind_inv.
  apply run_ret_inv in Hret as [-> ->]. eauto.
Qed.

Lemma by_date_desc_inv a b h v h' :
  Heap.by_date_desc a b h = Some (v, h') → h' = h.
Proof.
  unfold Heap.by_date_desc.
  intros (db & h0 & (-> & _)%get_data_inv & Hrest)%run_bind_inv.
  apply run_bind_inv in Hrest as (da & h1 & (-> & _)%get_data_inv & Hret).
  by apply run_ret_inv in Hret as [_ ->].
Qed.

Lemma filter_elements_inv ls h kept h' :
  Heap.filter_elements Heap.not_draft ls h = Some (kept, h') →
  h' = h ∧ kept `sublist_of` ls ∧ ∃ es, Forall2 (Heap.points_to h) ls es.
Proof.
  revert kept h'. induction ls as [|l rest IH]; intros kept h'; simpl.
  - intros [-> ->]%run_ret_inv. split_and!; [done|done|by exists []].
  - intros (keep & h0 & (-> & e & He & ->)%not_draft_inv & Hrest)%run_bind_inv.
    apply run_bind_inv in Hrest as (kept' & h1 & Hrun & Hret).
    apply IH in Hrun as (-> & Hsub & es & Hes).
    apply run_ret_inv in Hret as [-> ->].
    split_and!; [done| |exists (e :: es); by constructor].
    destruct (not_draft e); by constructor.
Qed.

Lemma insert_element_inv l ls h sorted h' :
  Heap.insert_element Heap.by_date_desc l ls h = Some (sorted, h') →
  h' = h ∧ sorted ≡ₚ l :: ls.
Proof.
  revert sorted h'. induction ls as [|l0 rest IH]; intros sorted h'; simpl.
  - by intros [-> ->]%run_ret_inv.
  - intros (v & h0 & ->%by_date_desc_inv & Hrest)%run_bind_inv.
    destruct (v <=? 0).
    + by apply run_ret_inv in Hrest as [-> ->].
    + apply run_bind_inv in Hrest as (rest' & h1 & Hrun & Hret).
      apply IH in Hrun as [-> Hperm].
      apply run_ret_inv in Hret as [-> ->].
      split; [done|]. rewrite Hperm. apply Permutation_swap.
Qed.

Lemma sort_elements_inv ls h sorted h' :
  Heap.sort_elements Heap.by_date_desc ls h = Some (sorted, h') →
  h' = h ∧ sorted ≡ₚ ls.
Proof.
  revert sorted h'. induction ls as [|l rest IH]; intros sorted h'; simpl.
  - by intros [-> ->]%run_ret_inv.
  - intros (sorted' & h0 & Hrun & Hins)%run_bind_inv.
    apply IH in Hrun as [-> Hperm].
    apply insert_element_inv in Hins as [-> Hins].
    split; [done|]. by rewrite Hins, Hperm.
Qed.

Lemma read_inv r h ls h' :
  Heap.read r h = Some (ls, h') → h' = h ∧ Heap.arrays h !! r = Some ls.
Proof.
  unfold Heap.read. destruct (Heap.arrays h !! r); [|done]. by intros [= -> ->].
Qed.
End HeapInversion.

(** X11. A run of the query over the store that returns started from an
    array whose elements all denote entries, and the array it returns
    holds references taken from that array, none more often than the
    collection holds it: the listing shares the entry objects of the
    collection and copies none. No entry object is written. *)
Theorem listing_shares_entries
    (h h' : Heap.heap) (posts listing : positive) :
  Heap.blog posts h = Some (listing, h') →
  ∃ ls es ls',
    Heap.arrays h !! posts = Some ls
    ∧ Forall2 (Heap.points_to h) ls es
    ∧ Heap.arrays h' !! listing = Some ls'
    ∧ ls' ⊆+ ls
    ∧ Heap.objects h' = Heap.objects h.
Proof.
  unfold Heap.blog.
  intros (visible & h1 & Hfilter & Hrest)%run_bind_inv.
  apply run_bind_inv in Hrest as (ordered & h2 & Hsort & Hslice).
  unfold Heap.Array_filter in Hfilter.
  apply run_bind_inv in Hfilter as (ls & h0 & [-> Hposts]%read_inv & Hfilter).
  apply run_bind_inv in Hfilter as (vs & h0 & Hkept & Halloc).
  apply filter_elements_inv in Hkept as (-> & Hsub & es & Hes).
  unfold Heap.alloc in Halloc. injection Halloc as <- <-.
  unfold Heap.Array_sort in Hsort.
  apply run_bind_inv in Hsort as (vs' & h0 & [-> Hread]%read_inv & Hsort).
  simpl in Hread. rewrite lookup_insert_eq in Hread. injection Hread as <-.
  apply run_bind_inv in Hsort as (ss & h0 & [-> Hperm]%sort_elements_inv & Hsort).
  apply run_bind_inv in Hsort as ([] & h0 & Hwrite & Hret).
  unfold Heap.write in Hwrite. injection Hwrite as <-.
  apply run_ret_inv in Hret as [-> ->].
  unfold Heap.Array_slice in Hslice.
  apply run_bind_inv in Hslice as (ss' & h0 & [-> Hread]%read_inv & Halloc).
  simpl in Hread. rewrite lookup_insert_eq in Hread. injection Hread as <-.
  unfold Heap.alloc in Halloc. injection Halloc as <- <-.
  exists ls, es, (JSArray.slice 0 (NUM_POSTS_ON_HOMEPAGE SITE) ss).
  split_and!; try done.
  - simpl. by rewrite lookup_insert_eq.
  - rewrite slice_0 by done.
    etrans; [apply submseteq_take|].
    rewrite Hperm. by apply sublist_submseteq.
Qed.

Lemma listing_shares_entries_witness :
  ∃ ls es ls',
    Heap.arrays sample_heap !! 1%positive = Some ls
    ∧ Forall2 (Heap.points_to sample_heap) ls es
    ∧ Heap.arrays sample_heap_after !! 3%positive = Some ls'
    ∧ ls' ⊆+ ls
    ∧ Heap.objects sample_heap_after = Heap.objects sample_heap.
Proof.
  apply (listing_shares_entries sample_heap sample_heap_after 1%positive 3%positive).
  vm_compute. reflexivity.
Defined.

(** ** The markup of the listing *)

(** X12. The page shows one item per listed entry, in the order of the
    listing, each item holding the card of its entry: at most three
    items, ordered by date, most recent first, and never the card of a
    draft. *)
Theorem latest_posts_show_listing (posts : list CollectionEntry) :
  Forall2 (λ item e, item = Li (ArrowCard e)) (latest_posts posts) (blog posts)
  ∧ (length (latest_posts posts) ≤ 3)%nat
  ∧ (∀ i j ei ej,
       latest_posts posts !! i = Some (Li (ArrowCard ei)) →
       latest_posts posts !! j = Some (Li (ArrowCard ej)) →
       (i < j)%nat → date (data ej) ≤ date (data ei))
  ∧ (∀ e, draft (data e) = Some true → Li (ArrowCard e) ∉ latest_posts posts).
Proof.
  unfold latest_posts.
  assert (∀ i e, (List.map (λ post, Li (ArrowCard post)) (blog posts)) !! i
                 = Some (Li (ArrowCard e)) → blog posts !! i = Some e) as Hitem.
  { intros i e Hi. change List.map with (@fmap list _) in Hi.
    rewrite list_lookup_fmap in Hi.
    destruct (blog posts !! i) as [e'|]; simpl in Hi; [|done].
    by injection Hi as ->. }
  split_and!.
  - clear Hitem. induction (blog posts) as [|e rest IH]; simpl; by constructor.
  - rewrite length_map, listing_length_aux. lia.
  - intros i j ei ej Hi%Hitem Hj%Hitem Hlt.
    pose proof (blog_descending posts) as Hs. unfold descending in Hs.
    rewrite <- (take_drop (S i) (blog posts)) in Hs.
    apply (StronglySorted_app_1_elem_of _ _ _ ei ej) in Hs; [done| |].
    + apply list_elem_of_lookup. exists i. by rewrite lookup_take_lt by lia.
    + apply list_elem_of_lookup. exists (j - S i)%nat.
      rewrite lookup_drop. by replace (S i + (j - S i))%nat with j by lia.
  - intros e Hdraft Hin.
    apply list_elem_of_lookup in Hin as [i Hi]. apply Hitem in Hi.
    apply list_elem_of_lookup_2 in Hi.
    rewrite blog_unfold in Hi.
    apply elem_of_take in Hi as (k & Hk & _).
    apply list_elem_of_lookup_2 in Hk.
    rewrite sort_perm in Hk. apply elem_of_filter in Hk as [_ Hkeep].
    unfold not_draft in Hkeep. by rewrite Hdraft in Hkeep.
Qed.

Lemma latest_posts_show_listing_witness :
  (Li (ArrowCard draft6) ∉ latest_posts [post1; draft6; post5])
  ∧ date (data post1) ≤ date (data post5).
Proof.
  pose proof (latest_posts_show_listing [post1; draft6; post5])
    as (_ & _ & Horder & Hdraft).
  split.
  - apply Hdraft. reflexivity.
  - apply (Horder 0%nat 1%nat); [reflexivity|reflexivity|lia].
Defined.

(** ** Entries of the same date *)

(** X13. Entries of the same date take their places in the listing in
    load order: in a collection of distinct entries, when [a] was loaded
    before [b], both have the same date, [a] is not a draft and [b] is
    listed, then [a] is listed too. *)
Theorem earlier_of_same_date_is_listed_first
    (posts before between after : list CollectionEntry) (a b : CollectionEntry) :
  posts = before ++ a :: between ++ b :: after →
  NoDup posts →
  date (data a) = date (data b) →
  draft (data a) ≠ Some true →
  b ∈ blog posts → a ∈ blog posts.
Proof.
  intros Hposts Hnd Hdate Ha Hb.
  rewrite blog_unfold in Hb |- *.
  set (visible := JSArray.filter not_draft posts) in *.
  set (ordered := JSArray.sort by_date_desc visible) in *.
  apply not_draft_true in Ha.
  assert (not_draft b = true) as Hkeep.
  { apply elem_of_take in Hb as (i & Hi & _).
    apply list_elem_of_lookup_2 in Hi.
    unfold ordered in Hi. rewrite sort_perm in Hi.
    by apply elem_of_filter in Hi as [_ ?]. }
  assert (∃ l1 l2 l3, ordered = l1 ++ a :: l2 ++ b :: l3) as (l1 & l2 & l3 & Hord).
  { assert (visible = List.filter not_draft before
                       ++ a :: List.filter not_draft between
                       ++ b :: List.filter not_draft after) as Hvis.
    { unfold visible, JSArray.filter.
      rewrite Hposts, List.filter_app. simpl.
      rewrite Ha, List.filter_app. simpl. by rewrite Hkeep. }
    assert (List.filter (λ e, date (data e) =? date (data a)) ordered
            = List.filter (λ e, date (data e) =? date (data a)) visible) as Hk
      by apply (sort_with_key (λ e, date (data e))).
    rewrite Hvis in Hk.
    rewrite List.filter_app in Hk. simpl in Hk. rewrite Z.eqb_refl in Hk.
    rewrite List.filter_app in Hk. simpl in Hk.
    rewrite <- Hdate, Z.eqb_refl in Hk.
    apply filter_split in Hk as (l1 & rest & Hk & _ & Hrest).
    apply filter_split in Hrest as (l2 & l3 & -> & _ & _).
    by exists l1, l2, l3. }
  assert (NoDup ordered) as Hnd'.
  { unfold ordered. rewrite sort_perm.
    eapply sublist_NoDup; [exact Hnd|apply filter_sublist]. }
  apply elem_of_take in Hb as (i & Hi & Hlt).
  assert (ordered !! length (l1 ++ a :: l2) = Some b) as Hpos.
  { rewrite Hord.
    replace (l1 ++ a :: l2 ++ b :: l3) with ((l1 ++ a :: l2) ++ b :: l3)
      by by rewrite <- app_assoc.
    apply list_lookup_middle. done. }
  pose proof (NoDup_lookup _ _ _ _ Hnd' Hi Hpos) as ->.
  rewrite length_app in Hlt. simpl in Hlt.
  apply elem_of_take. exists (length l1). split; [|lia].
  rewrite Hord. by apply list_lookup_middle.
Qed.

Lemma earlier_of_same_date_is_listed_first_witness :
  post3 ∈ blog ([post1] ++ post3 :: [post5] ++ post3b :: []).
Proof.
  apply (earlier_of_same_date_is_listed_first _ [post1] [post5] [] post3 post3b).
  - reflexivity.
  - cbn [app].
    repeat (apply NoDup_cons; split;
            [rewrite ?elem_of_cons, elem_of_nil; vm_compute; intuition discriminate|]).
    apply NoDup_nil_2.
  - reflexivity.
  - discriminate.
  - assert (blog ([post1] ++ post3 :: [post5] ++ post3b :: [])
            = [post5; post3; post3b]) as -> by reflexivity.
    do 2 apply list_elem_of_further. apply list_elem_of_here.
Defined.

Lemma listing_empty_iff_witness : blog [draft6; draft6] = [].
Proof. apply listing_empty_iff. repeat constructor. Defined.
